(** * fast_api_test: the [/incoming] and [/outgoing] handlers of [main.py]

    A shallow embedding of the two FastAPI handlers and of the three small
    algorithms they run (duplicate positions, whitespace removal, the echo
    of the integer list), with the MongoDB collection as explicit state.

    Conventions.
    - A Python [str] is a sequence of Unicode code points: [list N].
    - A Python [int] is unbounded: [Z].  An index produced by [enumerate]
      is a [nat].
    - The dict [duplicates] is a [gmap N (list nat)] (key: the one-character
      string, i.e. its code point); the set [used_previously] is a [gset N].
      Key order of the dict is not modelled (Python compares dicts without
      regard to it).
    - The handlers run in the monad [M]: the database is threaded as state
      and a raised exception stops the handler, keeping the state reached.
    - The collection follows pymongo 3, whose [remove()] the code calls:
      [insert_one] encodes the document to BSON before anything is sent,
      and raises, storing nothing, when the document cannot be encoded.
      Strings are taken without lone surrogates and below the 16 MiB of a
      BSON document. *)

From Stdlib Require Import NArith ZArith String Ascii.
From stdpp Require Import base option list sorting gmap.

Local Open Scope N_scope.

(** ** Python values *)

Abbreviation str := (list N).

(** A string literal of the development: the code points of an ASCII text. *)
Definition py (s : string) : str := N_of_ascii <$> list_ascii_of_string s.

(** [string.whitespace], i.e. [' \t\n\r\x0b\x0c']. *)
Definition whitespace : str := [32; 9; 10; 13; 11; 12].

(** [sep.join(parts)]. *)
Fixpoint join (sep : str) (parts : list str) : str :=
  match parts with
  | [] => []
  | [p] => p
  | p :: ps => p ++ sep ++ join sep ps
  end.

(** The zero digits of the blocks of ten characters whose Unicode property
    is Numeric_Type=Decimal (Unicode 14.0.0, the database of CPython 3.11):
    [c] is a decimal character iff [z <= c < z + 10] for one of them. *)
Definition decimal_zeros : list N :=
  [ 0x30; 0x660; 0x6f0; 0x7c0; 0x966; 0x9e6; 0xa66; 0xae6; 0xb66; 0xbe6;
    0xc66; 0xce6; 0xd66; 0xde6; 0xe50; 0xed0; 0xf20; 0x1040; 0x1090; 0x17e0;
    0x1810; 0x1946; 0x19d0; 0x1a80; 0x1a90; 0x1b50; 0x1bb0; 0x1c40; 0x1c50;
    0xa620; 0xa8d0; 0xa900; 0xa9d0; 0xa9f0; 0xaa50; 0xabf0; 0xff10; 0x104a0;
    0x10d30; 0x11066; 0x110f0; 0x11136; 0x111d0; 0x112f0; 0x11450; 0x114d0;
    0x11650; 0x116c0; 0x11730; 0x118e0; 0x11950; 0x11c50; 0x11d50; 0x11da0;
    0x16a60; 0x16ac0; 0x16b50; 0x1d7ce; 0x1d7d8; 0x1d7e2; 0x1d7ec; 0x1d7f6;
    0x1e140; 0x1e2f0; 0x1e950; 0x1fbf0 ].

Definition decimal_char (c : N) : bool :=
  existsb (λ z, (z <=? c) && (c <? z + 10)) decimal_zeros.

(** [s.isdecimal()]: every character is a decimal character and there is
    at least one character. *)
Definition isdecimal (s : str) : bool :=
  match s with
  | [] => false
  | _ :: _ => forallb decimal_char s
  end.

(** [bool(b)] on a [bool] and [int(i)] on an [int]. *)
Definition bool_ (b : bool) : bool := b.
Definition int_ (i : Z) : Z := i.

(** ** The request and the stored document *)

Module Req.
(** [class Req(BaseModel)]: the body of a POST, after pydantic parsed it. *)
Record t := mk {
  id : str;
  findDuplicates : str;
  whiteSpacesGalore : str;
  validateMeOnlyIActuallyShouldBeABoolean : bool;
  numbersMeetNumbers : list Z
}.
End Req.

(** The dict [out] of [incoming], and a document of the collection.  The
    key ["_id"] is absent from [out] ([None]); [insert_one] adds it to the
    dict it is given. *)
Record Doc := mkDoc {
  _id : option nat;
  originalId : str;
  duplicatePositions : gmap N (list nat);
  whiteSpacesRemoved : str;
  onlyBoolean : bool;
  listOfIntegers : list Z
}.

Definition set_id (o : option nat) (d : Doc) : Doc :=
  mkDoc o (originalId d) (duplicatePositions d) (whiteSpacesRemoved d)
        (onlyBoolean d) (listOfIntegers d).

(** [d.copy()]: a new dict with the same keys and values. *)
Definition copy (d : Doc) : Doc := d.

(** ** Exceptions, the database and the handler monad *)

Inductive exn :=
  | AssertionError
  | KeyError
  | RequestValidationError
  | InvalidDocument
  | OverflowError.

Inductive result (A : Type) :=
  | Ok (a : A)
  | Raise (e : exn).
Arguments Ok {A} a.
Arguments Raise {A} e.

(** [db.simple_rest_table] in insertion order, and the source of the
    [ObjectId]s that [insert_one] hands out. *)
Record Db := mkDb {
  simple_rest_table : list Doc;
  next_oid : nat
}.

Definition db0 : Db := mkDb [] 0.

Definition M (A : Type) : Type := Db → result A * Db.

#[global] Instance M_ret : MRet M := λ A a db, (Ok a, db).

#[global] Instance M_bind : MBind M := λ A B f m db,
  match m db with
  | (Ok a, db') => f a db'
  | (Raise e, db') => (Raise e, db')
  end.

Definition raise {A} (e : exn) : M A := λ db, (Raise e, db).

(** [assert b]. *)
Definition assert_ (b : bool) : M unit :=
  if b then mret () else raise AssertionError.

(** [list(db.simple_rest_table.find())]. *)
Definition find : M (list Doc) := λ db, (Ok (simple_rest_table db), db).

(** [db.simple_rest_table.remove()]: with no filter, every document goes. *)
Definition remove : M unit := λ db, (Ok (), mkDb [] (next_oid db)).

(** A key that the BSON encoder of pymongo 3 refuses in a document to
    insert, at any depth: one that starts with '$' (36), or that contains
    '.' (46) or the NUL character.  The keys of [duplicatePositions] are
    one-character strings; the five keys of [out] itself are fine. *)
Definition bad_key (k : N) : bool := (k =? 0) || (k =? 36) || (k =? 46).

(** BSON holds integers of at most eight bytes. *)
Definition int64 (i : Z) : bool := (- 2 ^ 63 <=? i)%Z && (i <? 2 ^ 63)%Z.

(** The exception the encoding of a document to BSON ends in, if any.  The
    fields are encoded in the order of the dict: [duplicatePositions], where
    a refused key gives [InvalidDocument], comes before [listOfIntegers],
    where an integer outside eight bytes gives [OverflowError].  (The
    positions listed are indices of a string, within eight bytes.) *)
Definition bson_error (d : Doc) : option exn :=
  if existsb bad_key (map_to_list (duplicatePositions d)).*1
  then Some InvalidDocument
  else if forallb int64 (listOfIntegers d) then None
  else Some OverflowError.

(** [db.simple_rest_table.insert_one(d)]: a dict without ["_id"] gets a
    fresh [ObjectId] (the dict itself is updated: the result is the dict as
    the call leaves it); the document is encoded, which may raise, and only
    then is it appended to the collection. *)
Definition insert_one (d : Doc) : M Doc := λ db,
  let '(d', oid) :=
    match _id d with
    | Some _ => (d, next_oid db)
    | None => (set_id (Some (next_oid db)) d, S (next_oid db))
    end in
  match bson_error d' with
  | Some e => (Raise e, db)
  | None => (Ok d', mkDb (simple_rest_table db ++ [d']) oid)
  end.

(** [del i["_id"]]: the result is the dict as the statement leaves it. *)
Definition del_id (i : Doc) : M Doc :=
  match _id i with
  | Some _ => mret (set_id None i)
  | None => raise KeyError
  end.

(** [for i in r: body(i)], collecting what the body leaves of each [i]. *)
Fixpoint for_each {A B} (body : A → M B) (r : list A) : M (list B) :=
  match r with
  | [] => mret []
  | i :: r' => i' ← body i; rest ← for_each body r'; mret (i' :: rest)
  end.

(** ** [GET /] and [GET /outgoing] *)

Definition outgoing : M (list Doc) :=
  r ← find;
  r ← for_each del_id r;
  remove;;
  mret r.

(** ** [POST /incoming] *)

(** The body of [for x, c in enumerate(req.findDuplicates)], on the pair
    [(duplicates, used_previously)]. *)
Definition scan_body (x : nat) (c : N) (st : gmap N (list nat) * gset N)
  : gmap N (list nat) * gset N :=
  let '(duplicates, used_previously) := st in
  if decide (c ∈ used_previously)
  then (<[c := default [] (duplicates !! c) ++ [x]]> duplicates, used_previously)
  else (duplicates, used_previously ∪ {[c]}).

(** [for x, c in enumerate(s)] with [x] counting from [x0]. *)
Fixpoint for_enumerate {St} (body : nat → N → St → St) (x0 : nat) (s : str) (st : St) : St :=
  match s with
  | [] => st
  | c :: s' => for_enumerate body (S x0) s' (body x0 c st)
  end.

(** The dict [duplicates] when the loop is over. *)
Definition duplicates (s : str) : gmap N (list nat) :=
  (for_enumerate scan_body 0%nat s (∅, ∅)).1.

(** [i for i in s if i not in string.whitespace]: the one-character
    strings the generator yields.  For a one-character [i], [i in w] is
    membership of its character in [w]. *)
Fixpoint not_whitespace_gen (s : str) : list str :=
  match s with
  | [] => []
  | i :: s' =>
      if bool_decide (i ∈ whitespace) then not_whitespace_gen s'
      else [i] :: not_whitespace_gen s'
  end.

Definition remove_whitespace (s : str) : str := join [] (not_whitespace_gen s).

Definition incoming (req : Req.t) : M Doc :=
  let my_id := Req.id req in
  assert_ (isdecimal my_id);;
  let duplicates := duplicates (Req.findDuplicates req) in
  let whiteSpacesGalore := remove_whitespace (Req.whiteSpacesGalore req) in
  let validateMeOnlyIActuallyShouldBeABoolean :=
    bool_ (Req.validateMeOnlyIActuallyShouldBeABoolean req) in
  let numbersMeetNumbers := int_ <$> Req.numbersMeetNumbers req in
  let out := mkDoc None my_id duplicates whiteSpacesGalore
                   validateMeOnlyIActuallyShouldBeABoolean numbersMeetNumbers in
  insert_one (copy out);;
  mret out.

(** ** The framework around the handlers *)

(** The status FastAPI answers with: 200 for a returned value, 422 for a
    body that does not parse as [Req] ([RequestValidationError], raised
    before the handler runs), 500 for any other exception that leaves the
    handler. *)
Definition status_code {A} (r : result A) : nat :=
  match r with
  | Ok _ => 200
  | Raise RequestValidationError => 422
  | Raise _ => 500
  end.

(** The request of the module's docstring. *)
Definition sample : Req.t :=
  Req.mk (py "652")
         (py "HereWeHaveSomeDuplicatedCharacters")
         (py "Can we replace all this white spaces without using replace please")
         false
         [35; 2; 100; 15; 75; 25; 99]%Z.

(** The dict [out] that [incoming] builds for the sample. *)
Definition sample_out : Doc :=
  mkDoc None (Req.id sample) (duplicates (Req.findDuplicates sample))
        (remove_whitespace (Req.whiteSpacesGalore sample))
        (Req.validateMeOnlyIActuallyShouldBeABoolean sample)
        (Req.numbersMeetNumbers sample).

(** The sample request with another [id], and with another list of
    integers. *)
Definition with_id (i : str) : Req.t :=
  Req.mk i (Req.findDuplicates sample) (Req.whiteSpacesGalore sample)
         (Req.validateMeOnlyIActuallyShouldBeABoolean sample)
         (Req.numbersMeetNumbers sample).

Definition with_numbers (l : list Z) : Req.t :=
  Req.mk (Req.id sample) (Req.findDuplicates sample) (Req.whiteSpacesGalore sample)
         (Req.validateMeOnlyIActuallyShouldBeABoolean sample) l.


(** A server that handles POSTs one after the other: the responses, in
    order, and the database they leave. *)
Fixpoint serve_posts (reqs : list Req.t) (db : Db) : list (result Doc) * Db :=
  match reqs with
  | [] => ([], db)
  | req :: reqs' =>
      let '(r, db') := incoming req db in
      let '(rs, db'') := serve_posts reqs' db' in
      (r :: rs, db'')
  end.

(** The records of the responses that were not errors. *)
Definition returned (rs : list (result Doc)) : list Doc :=
  omap (λ r, match r with Ok d => Some d | Raise _ => None end) rs.

(** ** Vocabulary of the specification *)

(** The zero-based indices at which [c] stands in [s], in increasing
    order. *)
Definition occurrences (c : N) (s : str) : list nat :=
  filter (λ i, s !! i = Some c) (seq 0 (length s)).

(** The repeat occurrences of [c] in [s]: every occurrence but the first. *)
Definition repeat_occurrences (c : N) (s : str) : list nat :=
  tail (occurrences c s).

(** The whitespace characters the specification lists: space, tab, newline,
    carriage return, form feed, vertical tab. *)
Definition spec_whitespace (c : N) : Prop :=
  c = 32 ∨ c = 9 ∨ c = 10 ∨ c = 13 ∨ c = 12 ∨ c = 11.

#[global] Instance spec_whitespace_dec c : Decision (spec_whitespace c).
Proof. unfold spec_whitespace. apply _. Defined.

(** What the loop makes of the entry [o] of a key whose positions [ps] are
    appended to it one by one: nothing when there is none to append. *)
Definition extend (o : option (list nat)) (ps : list nat) : option (list nat) :=
  match ps with
  | [] => o
  | _ :: _ => Some (default [] o ++ ps)
  end.

(** Every stored document carries its ["_id"]. *)
Definition stored (db : Db) : Prop :=
  Forall (λ d, is_Some (_id d)) (simple_rest_table db).

(** ** The routes, and a server handling requests one after the other *)

(** The three routes the decorators declare: [@app.get("/")] and
    [@app.get("/outgoing")] on [outgoing], [@app.post("/incoming")] on
    [incoming]. *)
Inductive request :=
  | GET_root
  | GET_outgoing
  | POST_incoming (req : Req.t).

(** What a handler hands back: the list of [outgoing] or the dict of
    [incoming], or the exception that left it. *)
Inductive reply :=
  | Drained (r : result (list Doc))
  | Posted (r : result Doc).

Definition handle (q : request) (db : Db) : reply * Db :=
  match q with
  | GET_root | GET_outgoing => let '(r, db') := outgoing db in (Drained r, db')
  | POST_incoming req => let '(r, db') := incoming req db in (Posted r, db')
  end.

Fixpoint serve (qs : list request) (db : Db) : list reply * Db :=
  match qs with
  | [] => ([], db)
  | q :: qs' =>
      let '(r, db') := handle q db in
      let '(rs, db'') := serve qs' db' in
      (r :: rs, db'')
  end.

(** The records the GETs of a run returned, and the records its POSTs
    returned, each in order. *)
Definition delivered (rs : list reply) : list Doc :=
  mjoin (omap (λ r, match r with Drained (Ok l) => Some l | _ => None end) rs).

Definition accepted (rs : list reply) : list Doc :=
  omap (λ r, match r with Posted (Ok d) => Some d | _ => None end) rs.

(** A reply is an error of the server when an exception left the handler. *)
Definition failed (r : reply) : option exn :=
  match r with
  | Drained (Raise e) | Posted (Raise e) => Some e
  | _ => None
  end.

(** The number of positions a dict of the duplicate scan lists, over all
    its keys. *)
Definition total_positions (d : gmap N (list nat)) : nat :=
  map_fold (λ _ l n, length l + n)%nat 0%nat d.

(** ** The test of the [__main__] block *)

Local Unset Elimination Schemes.

(** A JSON value, as [response.json()] gives it back. *)
Inductive json :=
  | JBool (b : bool)
  | JInt (i : Z)
  | JStr (s : str)
  | JList (items : list json)
  | JDict (items : list (str * json)).

Local Set Elimination Schemes.

(** The JSON of a record that [outgoing] returns (its ["_id"] is gone by
    then): an object with the five keys of [out]. *)
Definition encode (d : Doc) : json :=
  JDict [ (py "originalId", JStr (originalId d));
          (py "duplicatePositions",
           JDict ((λ kv, ([kv.1], JList (JInt ∘ Z.of_nat <$> kv.2)))
                    <$> map_to_list (duplicatePositions d)));
          (py "whiteSpacesRemoved", JStr (whiteSpacesRemoved d));
          (py "onlyBoolean", JBool (onlyBoolean d));
          (py "listOfIntegers", JList (JInt <$> listOfIntegers d)) ].

Module Response.
Record t := mk {
  status_code : nat;
  json : json
}.
End Response.

(** [client.get("/")] of the [TestClient]: the route runs [outgoing]; an
    exception of the handler is raised again in the test; a returned list
    is answered with status 200 and the JSON array of its records. *)
Definition client_get_root : M Response.t :=
  r ← outgoing;
  mret (Response.mk 200 (JList (encode <$> r))).

(** [v == {"msg": "Hello World"}]: [v] is a dict whose only key is ["msg"],
    with the string ["Hello World"] as its value. *)
Definition eq_hello_world (v : json) : bool :=
  match v with
  | JDict [(k, JStr m)] =>
      bool_decide (k = py "msg") && bool_decide (m = py "Hello World")
  | _ => false
  end.

Definition test_read_main : M unit :=
  response ← client_get_root;
  assert_ (Nat.eqb (Response.status_code response) 200);;
  assert_ (eq_hello_world (Response.json response)).

(** * Whitespace removal *)

Lemma whitespace_spec c : c ∈ whitespace ↔ spec_whitespace c.
Proof.
  unfold whitespace, spec_whitespace.
  rewrite !elem_of_cons, elem_of_nil. tauto.
Qed.

Lemma remove_whitespace_cons i s :
  remove_whitespace (i :: s) =
  if bool_decide (i ∈ whitespace) then remove_whitespace s
  else i :: remove_whitespace s.
Proof.
  unfold remove_whitespace. simpl.
  case_bool_decide; [done|].
  destruct (not_whitespace_gen s) as [|p ps]; done.
Qed.

Lemma remove_whitespace_filter s :
  remove_whitespace s = filter (λ c, ¬ spec_whitespace c) s.
Proof.
  induction s as [|i s IH]; [done|].
  rewrite remove_whitespace_cons, filter_cons, IH.
  case_bool_decide as Hi; rewrite whitespace_spec in Hi.
  - by rewrite decide_False by tauto.
  - by rewrite decide_True.
Qed.

(** * Occurrences of a character *)

Lemma filter_fmap_comm {A B} (f : A → B) (P : B → Prop)
    `{!∀ y, Decision (P y)} (l : list A) :
  filter P (f <$> l) = f <$> filter (λ x, P (f x)) l.
Proof.
  induction l as [|a l IH]; [done|].
  rewrite fmap_cons, !filter_cons, IH. by case_decide.
Qed.

Lemma StronglySorted_filter_lt (P : nat → Prop) `{!∀ y, Decision (P y)} l :
  StronglySorted lt l → StronglySorted lt (filter P l).
Proof.
  induction 1 as [|a l Hl IH Ha]; [constructor|].
  rewrite filter_cons. case_decide; [|done].
  constructor; [done|].
  rewrite Forall_forall in Ha. apply Forall_forall.
  intros i [_ Hi]%list_elem_of_filter. by apply Ha.
Qed.

Lemma StronglySorted_seq j n : StronglySorted lt (seq j n).
Proof.
  revert j. induction n as [|n IH]; intros j; simpl; constructor; [done|].
  apply Forall_forall. intros i Hi%elem_of_seq. lia.
Qed.

Lemma occurrences_nil c : occurrences c [] = [].
Proof. done. Qed.

Lemma occurrences_cons c d s :
  occurrences c (d :: s) =
  (if decide (d = c) then [0%nat] else []) ++ (S <$> occurrences c s).
Proof.
  unfold occurrences. simpl length. simpl seq.
  rewrite <- fmap_S_seq, filter_cons, filter_fmap_comm. simpl.
  destruct (decide (d = c)) as [->|Hne].
  - by rewrite decide_True.
  - rewrite decide_False; [done|congruence].
Qed.

Lemma elem_of_occurrences c s i : i ∈ occurrences c s ↔ s !! i = Some c.
Proof.
  unfold occurrences. rewrite list_elem_of_filter, elem_of_seq.
  split; [tauto|]. intros Hi. split; [done|].
  apply lookup_lt_Some in Hi. lia.
Qed.

Lemma occurrences_sorted c s : StronglySorted lt (occurrences c s).
Proof. apply StronglySorted_filter_lt, StronglySorted_seq. Qed.

Lemma occurrences_not_elem_of c s : c ∉ s → occurrences c s = [].
Proof.
  intros Hc. destruct (occurrences c s) as [|i l] eqn:E; [done|].
  assert (Hi : i ∈ occurrences c s) by (rewrite E; left).
  apply elem_of_occurrences, list_elem_of_lookup_2 in Hi. done.
Qed.

Lemma occurrences_NoDup c s : NoDup s → (length (occurrences c s) ≤ 1)%nat.
Proof.
  induction 1 as [|d s Hd Hs IH]; [simpl; lia|].
  rewrite occurrences_cons, length_app, length_fmap.
  destruct (decide (d = c)) as [->|Hne]; simpl; [|done].
  rewrite occurrences_not_elem_of by done. simpl. lia.
Qed.

(** * The duplicate scan *)

Lemma shift_occurrences (x : nat) (l : list nat) :
  (λ i, x + i)%nat <$> (S <$> l) = (λ i, S x + i)%nat <$> l.
Proof.
  rewrite <- list_fmap_compose. apply list_fmap_ext. intros _ i _. simpl. lia.
Qed.

Lemma extend_snoc o x ps :
  extend (Some (default [] o ++ [x])) ps = extend o (x :: ps).
Proof. destruct ps; simpl; [done|]. by rewrite <- app_assoc. Qed.

(** The loop invariant, read off at the end of the loop: started at index
    [x] with the dict [d] and the set [u], the loop appends to the entry of
    [c] the positions of [c] in [s] (shifted by [x]), all of them when [c]
    is in [u] already, all but the first otherwise. *)
Lemma scan_lookup (s : str) : ∀ (x : nat) (d : gmap N (list nat)) (u : gset N) (c : N),
  (for_enumerate scan_body x s (d, u)).1 !! c =
  extend (d !! c)
    (if decide (c ∈ u) then (λ i, x + i)%nat <$> occurrences c s
     else tail ((λ i, x + i)%nat <$> occurrences c s)).
Proof.
  induction s as [|a s IH]; intros x d u c.
  - rewrite occurrences_nil. simpl. by case_decide.
  - simpl for_enumerate.
    rewrite occurrences_cons, fmap_app, shift_occurrences.
    destruct (decide (a ∈ u)) as [Ha|Ha]; rewrite IH.
    + destruct (decide (a = c)) as [->|Hne].
      * rewrite lookup_insert_eq, !decide_True by done. simpl.
        rewrite Nat.add_0_r. apply extend_snoc.
      * by rewrite lookup_insert_ne by done.
    + destruct (decide (a = c)) as [->|Hne].
      * rewrite decide_True by (apply elem_of_union_r, elem_of_singleton_2; done).
        rewrite decide_False by done. done.
      * simpl. destruct (decide (c ∈ u)) as [Hc|Hc].
        -- by rewrite decide_True by (by apply elem_of_union_l).
        -- rewrite decide_False; [done|].
           rewrite elem_of_union, elem_of_singleton. intros [?|?]; congruence.
Qed.

Lemma duplicates_lookup (s : str) (c : N) :
  duplicates s !! c = extend None (repeat_occurrences c s).
Proof.
  unfold duplicates, repeat_occurrences. rewrite scan_lookup.
  rewrite lookup_empty, decide_False by apply not_elem_of_empty.
  f_equal. f_equal. rewrite <- (list_fmap_id (occurrences c s)) at 2.
  apply list_fmap_ext. intros _ i _. done.
Qed.

Lemma extend_None_Some ps l : extend None ps = Some l → ps = l ∧ l ≠ [].
Proof. destruct ps; simpl; [done|]. intros [= <-]. done. Qed.

(** C1: for every string [s], the dict of the duplicate scan maps each
    character occurring more than once to the ordered list of the indices
    of its repeat occurrences (every occurrence but the first); it has a key
    exactly for the characters occurring more than once, so none for a
    character occurring exactly once; it is empty when [s] is empty or has
    no repeated character; and 'A' (65) and 'a' (97) are distinct keys. *)
Theorem duplicates_repeat_positions (s : str) :
  (∀ c, (2 ≤ length (occurrences c s))%nat →
        duplicates s !! c = Some (repeat_occurrences c s)) ∧
  (∀ c, length (occurrences c s) = 1%nat → duplicates s !! c = None) ∧
  (∀ c, is_Some (duplicates s !! c) ↔ (2 ≤ length (occurrences c s))%nat) ∧
  (s = [] → duplicates s = ∅) ∧
  (NoDup s → duplicates s = ∅) ∧
  duplicates (py "Aa") = ∅ ∧
  duplicates (py "AaA") = {[ 65 := [2%nat] ]} ∧
  duplicates (py "aAa") = {[ 97 := [2%nat] ]}.
Proof.
  assert (Hfew : ∀ c, (length (occurrences c s) ≤ 1)%nat → duplicates s !! c = None).
  { intros c Hc. rewrite duplicates_lookup. unfold repeat_occurrences.
    destruct (occurrences c s) as [|i [|j l]]; simpl in *; [done..|lia]. }
  assert (Hmany : ∀ c, (2 ≤ length (occurrences c s))%nat →
                       duplicates s !! c = Some (repeat_occurrences c s)).
  { intros c Hc. rewrite duplicates_lookup. unfold repeat_occurrences.
    destruct (occurrences c s) as [|i [|j l]]; simpl in *; [lia..|done]. }
  split_and!.
  - done.
  - intros c Hc. apply Hfew. lia.
  - intros c. split.
    + intros Hsome. destruct (decide (2 ≤ length (occurrences c s))%nat); [done|].
      rewrite Hfew in Hsome by lia. by destruct Hsome.
    + intros Hc. rewrite Hmany by done. by eexists.
  - intros ->. done.
  - intros Hs. apply map_eq. intros c. rewrite lookup_empty.
    apply Hfew. by apply occurrences_NoDup.
  - by vm_compute.
  - by vm_compute.
  - by vm_compute.
Qed.

(** C9: every key of the dict of the duplicate scan is mapped to a
    non-empty list; every listed index lies strictly after the first
    occurrence of the key in [s] and holds the key's character; and the
    list is strictly increasing. *)
Theorem duplicates_invariant (s : str) (c : N) (l : list nat) :
  duplicates s !! c = Some l →
  l ≠ [] ∧
  (∃ first : nat,
      s !! first = Some c ∧
      (∀ k : nat, (k < first)%nat → s !! k ≠ Some c) ∧
      Forall (λ i : nat, (first < i)%nat ∧ s !! i = Some c) l) ∧
  StronglySorted lt l.
Proof.
  rewrite duplicates_lookup. intros [Hl Hne]%extend_None_Some.
  unfold repeat_occurrences in Hl.
  pose proof (occurrences_sorted c s) as Hsorted.
  destruct (occurrences c s) as [|first l'] eqn:Hocc; simpl in Hl; [by subst|].
  subst l'. apply StronglySorted_inv in Hsorted as [Hsorted Hfirst].
  assert (Hin : ∀ i, i ∈ first :: l → s !! i = Some c).
  { intros i Hi. apply elem_of_occurrences. by rewrite Hocc. }
  split_and!; [done| |done].
  exists first. split_and!.
  - apply Hin. left.
  - intros k Hk Hsk. apply elem_of_occurrences in Hsk. rewrite Hocc in Hsk.
    apply elem_of_cons in Hsk as [->|Hsk]; [lia|].
    rewrite Forall_forall in Hfirst. apply Hfirst in Hsk. lia.
  - apply Forall_forall. intros i Hi. split.
    + rewrite Forall_forall in Hfirst. by apply Hfirst.
    + apply Hin. by right.
Qed.

Lemma duplicates_invariant_witness :
  [2%nat] ≠ [] ∧
  (∃ first : nat,
      py "AaA" !! first = Some 65 ∧
      (∀ k : nat, (k < first)%nat → py "AaA" !! k ≠ Some 65) ∧
      Forall (λ i : nat, (first < i)%nat ∧ py "AaA" !! i = Some 65) [2%nat]) ∧
  StronglySorted lt [2%nat].
Proof. apply (duplicates_invariant (py "AaA") 65 [2%nat]). vm_compute. reflexivity. Defined.

(** The scan on the sample: 'e' (101) has six repeat positions, and six
    characters in all are repeated. *)
Example duplicates_sample :
  duplicates (Req.findDuplicates sample) =
  {[ 101 := [3; 5; 9; 13; 22; 31]%nat; 72 := [6%nat]; 97 := [20; 26; 28]%nat;
     114 := [27; 32]%nat; 99 := [29%nat]; 116 := [30%nat] ]}.
Proof. by vm_compute. Qed.

Example remove_whitespace_sample :
  remove_whitespace (Req.whiteSpacesGalore sample) =
  py "Canwereplaceallthiswhitespaceswithoutusingreplaceplease".
Proof. by vm_compute. Qed.

(** C2: for every string [s], whitespace removal returns exactly the
    characters of [s] outside the set (space, tab, newline, carriage return,
    form feed, vertical tab), in their order; and the length of the result
    plus the number of characters of [s] in that set is the length of [s]. *)
Theorem remove_whitespace_subsequence (s : str) :
  remove_whitespace s = filter (λ c, ¬ spec_whitespace c) s ∧
  (length (remove_whitespace s) + length (filter spec_whitespace s))%nat = length s.
Proof.
  split; [apply remove_whitespace_filter|].
  rewrite remove_whitespace_filter.
  induction s as [|i s IH]; [done|].
  rewrite !filter_cons. destruct (decide (spec_whitespace i)).
  - rewrite decide_False by tauto. simpl. lia.
  - rewrite decide_True by done. simpl. lia.
Qed.

(** C3: whitespace removal is idempotent. *)
Theorem remove_whitespace_idempotent (s : str) :
  remove_whitespace (remove_whitespace s) = remove_whitespace s.
Proof.
  induction s as [|i s IH]; [done|].
  rewrite remove_whitespace_cons. case_bool_decide as Hi; [done|].
  rewrite remove_whitespace_cons, bool_decide_eq_false_2 by done.
  by rewrite IH.
Qed.

(** * The handlers *)

Lemma fmap_int_ (l : list Z) : int_ <$> l = l.
Proof. induction l as [|i l IH]; [done|]. rewrite fmap_cons, IH. done. Qed.

Lemma bson_error_cases (d : Doc) :
  bson_error d = None ∨ bson_error d = Some InvalidDocument ∨
  bson_error d = Some OverflowError.
Proof.
  unfold bson_error. destruct (existsb _ _); [tauto|].
  destruct (forallb _ _); tauto.
Qed.

(** What [incoming] does, in one equation. *)
Lemma incoming_eq (req : Req.t) (db : Db) :
  incoming req db =
  if isdecimal (Req.id req) then
    let out := mkDoc None (Req.id req) (duplicates (Req.findDuplicates req))
                     (remove_whitespace (Req.whiteSpacesGalore req))
                     (Req.validateMeOnlyIActuallyShouldBeABoolean req)
                     (Req.numbersMeetNumbers req) in
    match bson_error out with
    | Some e => (Raise e, db)
    | None =>
        (Ok out, mkDb (simple_rest_table db ++ [set_id (Some (next_oid db)) out])
                      (S (next_oid db)))
    end
  else (Raise AssertionError, db).
Proof.
  unfold incoming, mbind, M_bind, assert_, bool_, copy, insert_one.
  rewrite fmap_int_. destruct (isdecimal (Req.id req)); [|done].
  simpl. unfold bson_error. simpl.
  destruct (existsb _ _); [done|]. by destruct (forallb _ _).
Qed.

(** The three ways [incoming] ends: the assertion fails; the document is
    refused by the encoder; the document is stored and returned. *)
Lemma incoming_cases (req : Req.t) (db : Db) :
  let out := mkDoc None (Req.id req) (duplicates (Req.findDuplicates req))
                   (remove_whitespace (Req.whiteSpacesGalore req))
                   (Req.validateMeOnlyIActuallyShouldBeABoolean req)
                   (Req.numbersMeetNumbers req) in
  (isdecimal (Req.id req) = false ∧
   incoming req db = (Raise AssertionError, db)) ∨
  (isdecimal (Req.id req) = true ∧
   ∃ e, (e = InvalidDocument ∨ e = OverflowError) ∧
        bson_error out = Some e ∧ incoming req db = (Raise e, db)) ∨
  (isdecimal (Req.id req) = true ∧ bson_error out = None ∧
   incoming req db =
     (Ok out, mkDb (simple_rest_table db ++ [set_id (Some (next_oid db)) out])
                   (S (next_oid db)))).
Proof.
  intros out. rewrite incoming_eq. cbv zeta. fold out.
  destruct (isdecimal (Req.id req)); [|by left]. right.
  destruct (bson_error_cases out) as [H|[H|H]]; rewrite H.
  - by right.
  - left. split; [done|]. eexists. split_and!; [by left|done..].
  - left. split; [done|]. eexists. split_and!; [by right|done..].
Qed.

(** The sample is stored, with any other [id] too. *)
Lemma bson_error_sample (i : str) :
  bson_error (mkDoc None i (duplicates (Req.findDuplicates sample))
                    (remove_whitespace (Req.whiteSpacesGalore sample))
                    (Req.validateMeOnlyIActuallyShouldBeABoolean sample)
                    (Req.numbersMeetNumbers sample)) = None.
Proof. by vm_compute. Qed.

Lemma isdecimal_Forall (s : str) :
  isdecimal s = true ↔ s ≠ [] ∧ Forall (λ c, decimal_char c = true) s.
Proof.
  destruct s as [|c s].
  - split; [done|]. by intros [? _].
  - change (isdecimal (c :: s)) with (forallb decimal_char (c :: s)).
    rewrite forallb_forall, Forall_forall.
    split; [intros H; split; [done|]|intros [_ H]];
      intros x Hx; apply H; by apply list_elem_of_In.
Qed.

(** Below 128 the decimal characters are the ASCII digits. *)
Lemma decimal_char_ascii (c : N) :
  c < 128 → (decimal_char c = true ↔ 48 ≤ c ≤ 57).
Proof.
  intros Hc. unfold decimal_char. rewrite existsb_exists.
  assert (Hzeros : forallb (λ z, (z =? 48) || (128 <=? z)) decimal_zeros = true)
    by (vm_compute; reflexivity).
  rewrite forallb_forall in Hzeros.
  split.
  - intros (z & Hz & [Hlo%N.leb_le Hhi%N.ltb_lt]%andb_true_iff).
    apply Hzeros, orb_true_iff in Hz as [->%N.eqb_eq|Hz%N.leb_le]; lia.
  - intros [Hlo Hhi]. exists 48. split; [by left|].
    apply andb_true_iff. split; [apply N.leb_le|apply N.ltb_lt]; lia.
Qed.

Lemma stored_db0 : stored db0.
Proof. constructor. Qed.

Lemma incoming_stored (req : Req.t) (db : Db) :
  stored db → stored (incoming req db).2.
Proof.
  intros Hdb.
  destruct (incoming_cases req db) as [[_ ->]|[(_ & e & _ & _ & ->)|(_ & _ & ->)]];
    [done..|].
  apply Forall_app. split; [done|]. repeat constructor. by eexists.
Qed.

Lemma del_id_Some (d : Doc) (db : Db) :
  is_Some (_id d) → del_id d db = (Ok (set_id None d), db).
Proof. intros [o Ho]. unfold del_id. by rewrite Ho. Qed.

Lemma for_each_del_id (r : list Doc) (db : Db) :
  Forall (λ d, is_Some (_id d)) r →
  for_each del_id r db = (Ok (set_id None <$> r), db).
Proof.
  induction 1 as [|d r Hd _ IH]; [done|].
  simpl. unfold mbind, M_bind. by rewrite del_id_Some, IH.
Qed.

Lemma outgoing_eq (db : Db) :
  stored db →
  outgoing db = (Ok (set_id None <$> simple_rest_table db), mkDb [] (next_oid db)).
Proof.
  intros Hdb. unfold outgoing, mbind, M_bind, find.
  by rewrite for_each_del_id.
Qed.

Lemma serve_posts_spec (reqs : list Req.t) : ∀ db rs db',
  serve_posts reqs db = (rs, db') →
  length rs = length reqs ∧
  set_id None <$> simple_rest_table db' =
    (set_id None <$> simple_rest_table db) ++ returned rs ∧
  (stored db → stored db').
Proof.
  induction reqs as [|req reqs IH]; intros db rs db'; simpl.
  - intros [= <- <-]. by rewrite app_nil_r.
  - pose proof (incoming_stored req db) as Hst.
    destruct (incoming_cases req db)
      as [[_ Hi]|[(_ & e & _ & _ & Hi)|(_ & _ & Hi)]];
      rewrite Hi in *; simpl in Hst;
      destruct (serve_posts reqs _) as [rs1 db1] eqn:Hserve;
      intros [= <- <-]; apply IH in Hserve as (Hlen & Htab & Hstored);
      (split_and!; [simpl; by rewrite Hlen| |by auto]); [done..|].
    simpl in Htab. rewrite Htab, fmap_app, <- app_assoc. done.
Qed.

(** A request given in full: it is neither refused by the assertion nor by
    the encoder. *)
Ltac incoming_accepted :=
  match goal with
  | |- context [incoming ?req ?db] =>
      let H := fresh in
      destruct (incoming_cases req db)
        as [[H _]|[(_ & ? & _ & H & _)|(_ & _ & ->)]];
      [vm_compute in H; discriminate H..|]
  end.

(** C4, as the code has it: a POST passes the check of [id] (the handler
    does not raise [AssertionError]) exactly when the [id] is not empty and
    made of decimal characters only (so "652" passes; "65a", "65.2" and the
    empty string do not); when it does not pass, the handler raises
    [AssertionError], nothing is stored, and the framework answers 500. *)
Theorem id_validation (req : Req.t) (db : Db) :
  ((incoming req db).1 ≠ Raise AssertionError ↔
     Req.id req ≠ [] ∧ Forall (λ c, decimal_char c = true) (Req.id req)) ∧
  (¬ (Req.id req ≠ [] ∧ Forall (λ c, decimal_char c = true) (Req.id req)) →
     incoming req db = (Raise AssertionError, db) ∧
     status_code (incoming req db).1 = 500%nat) ∧
  (∃ out db', incoming (with_id (py "652")) db = (Ok out, db')) ∧
  incoming (with_id (py "65a")) db = (Raise AssertionError, db) ∧
  incoming (with_id (py "65.2")) db = (Raise AssertionError, db) ∧
  incoming (with_id []) db = (Raise AssertionError, db).
Proof.
  split_and!.
  - rewrite <- isdecimal_Forall.
    destruct (incoming_cases req db)
      as [[Hid ->]|[(Hid & e & [-> | ->] & _ & ->)|(Hid & _ & ->)]];
      rewrite Hid; simpl; split; done.
  - rewrite <- isdecimal_Forall.
    destruct (incoming_cases req db)
      as [[Hid ->]|[(Hid & e & _ & _ & ->)|(Hid & _ & ->)]];
      rewrite Hid; done.
  - incoming_accepted. by eexists _, _.
  - by rewrite incoming_eq.
  - by rewrite incoming_eq.
  - by rewrite incoming_eq.
Qed.

(** C4, as the specification states it, fails twice: the empty [id] is
    made of decimal characters only and is refused; and the [id] "65a" is
    refused with an [AssertionError] answered by 500, not with a validation
    error answered in the 4xx class. *)
Lemma id_validation_counterexample :
  ¬ ((∃ out db', incoming (with_id []) db0 = (Ok out, db')) ↔
       Forall (λ c, decimal_char c = true) (Req.id (with_id []))) ∧
  ¬ (¬ Forall (λ c, decimal_char c = true) (Req.id (with_id (py "65a"))) →
       (incoming (with_id (py "65a")) db0).1 = Raise RequestValidationError ∧
       (400 ≤ status_code (incoming (with_id (py "65a")) db0).1 < 500)%nat).
Proof.
  split.
  - intros [_ H]. destruct H as (out & db' & H); [constructor|].
    rewrite incoming_eq in H. discriminate H.
  - intros H. destruct H as [H _].
    + intros HF. assert (Hd : isdecimal (py "65a") = true).
      { apply isdecimal_Forall. split; [done|]. exact HF. }
      vm_compute in Hd. discriminate Hd.
    + rewrite incoming_eq in H. discriminate H.
Qed.

(** C5, on the code: the handler selects no maximum.  For the sample, the
    list of integers is stored and returned as it came, and with an empty
    list the request succeeds with the empty list. *)
Theorem numbers_echoed_not_max (db : Db) :
  (∃ out db', incoming sample db = (Ok out, db') ∧
     listOfIntegers out = [35; 2; 100; 15; 75; 25; 99]%Z) ∧
  (∃ out db', incoming (with_numbers []) db = (Ok out, db') ∧
     listOfIntegers out = []).
Proof. split; incoming_accepted; by eexists _, _. Qed.

(** C6: for every valid request, that is every request the handler answers
    with a record, the record has [originalId] equal to the [id],
    [onlyBoolean] equal to the boolean of the request and [listOfIntegers]
    equal to its list of integers. *)
Theorem fields_passed_through (req : Req.t) (db db' : Db) (out : Doc) :
  incoming req db = (Ok out, db') →
  originalId out = Req.id req ∧
  onlyBoolean out = Req.validateMeOnlyIActuallyShouldBeABoolean req ∧
  listOfIntegers out = Req.numbersMeetNumbers req.
Proof.
  destruct (incoming_cases req db)
    as [[_ ->]|[(_ & e & _ & _ & ->)|(_ & _ & ->)]]; [done..|].
  by intros [= <- _].
Qed.

Lemma fields_passed_through_witness :
  originalId sample_out = Req.id sample ∧
  onlyBoolean sample_out = Req.validateMeOnlyIActuallyShouldBeABoolean sample ∧
  listOfIntegers sample_out = Req.numbersMeetNumbers sample.
Proof.
  apply (fields_passed_through sample db0 (mkDb [set_id (Some 0%nat) sample_out] 1)
           sample_out).
  vm_compute. reflexivity.
Defined.

(** C7: on a collection whose documents all carry their ["_id"], a GET
    returns every stored record (without its ["_id"]) and leaves the
    collection empty; the next GET, after any POSTs, returns the records of
    exactly the POSTs that succeeded since, in order, and empties the
    collection again.  In particular, on an empty collection, one POST of
    the sample then a GET returns that one record, and a second GET returns
    the empty list. *)
Theorem outgoing_drains (db : Db) (reqs : list Req.t) :
  stored db →
  (∃ db1,
      outgoing db = (Ok (set_id None <$> simple_rest_table db), db1) ∧
      simple_rest_table db1 = [] ∧
      ∃ db3,
        outgoing (serve_posts reqs db1).2 =
          (Ok (returned (serve_posts reqs db1).1), db3) ∧
        simple_rest_table db3 = []) ∧
  (simple_rest_table db = [] →
   ∃ out db1 db2 db3,
     incoming sample db = (Ok out, db1) ∧
     outgoing db1 = (Ok [out], db2) ∧
     outgoing db2 = (Ok [], db3) ∧
     simple_rest_table db3 = []).
Proof.
  intros Hdb. split.
  - eexists. rewrite outgoing_eq by done. split_and!; [done..|].
    destruct (serve_posts reqs _) as [rs db2] eqn:Hserve.
    apply serve_posts_spec in Hserve as (_ & Htab & Hst).
    simpl. eexists. rewrite outgoing_eq by (apply Hst; constructor).
    rewrite Htab. done.
  - intros Hempty. pose proof (incoming_stored sample db Hdb) as Hst.
    revert Hst. incoming_accepted. intros Hst. simpl in Hst.
    eexists _, _, _, _. split_and!; [done| | |].
    + rewrite outgoing_eq by done. simpl. rewrite Hempty. done.
    + rewrite outgoing_eq by constructor. done.
    + done.
Qed.

Lemma outgoing_drains_witness :
  (∃ db1,
      outgoing db0 = (Ok (set_id None <$> simple_rest_table db0), db1) ∧
      simple_rest_table db1 = [] ∧
      ∃ db3,
        outgoing (serve_posts [sample; with_id (py "65a")] db1).2 =
          (Ok (returned (serve_posts [sample; with_id (py "65a")] db1).1), db3) ∧
        simple_rest_table db3 = []) ∧
  (simple_rest_table db0 = [] →
   ∃ out db1 db2 db3,
     incoming sample db0 = (Ok out, db1) ∧
     outgoing db1 = (Ok [out], db2) ∧
     outgoing db2 = (Ok [], db3) ∧
     simple_rest_table db3 = []).
Proof. apply (outgoing_drains db0 [sample; with_id (py "65a")]). constructor. Defined.

(** C8: a POST that fails leaves the database as it was (one whose [id]
    does not pass the check raises [AssertionError] before anything else
    happens); a POST that succeeds has passed the check and has appended
    exactly one document, the complete record it returns, with its
    ["_id"]. *)
Theorem incoming_atomic (req : Req.t) (db : Db) :
  (∀ e db', incoming req db = (Raise e, db') → db' = db) ∧
  (isdecimal (Req.id req) = false →
     incoming req db = (Raise AssertionError, db)) ∧
  (∀ out db', incoming req db = (Ok out, db') →
     isdecimal (Req.id req) = true ∧
     out = mkDoc None (Req.id req) (duplicates (Req.findDuplicates req))
                 (remove_whitespace (Req.whiteSpacesGalore req))
                 (Req.validateMeOnlyIActuallyShouldBeABoolean req)
                 (Req.numbersMeetNumbers req) ∧
     simple_rest_table db' =
       simple_rest_table db ++ [set_id (Some (next_oid db)) out]).
Proof.
  destruct (incoming_cases req db)
    as [[Hid ->]|[(Hid & e0 & _ & _ & ->)|(Hid & _ & ->)]];
    rewrite Hid; split_and!; try done.
  - by intros e db' [= _ <-].
  - by intros e db' [= _ <-].
  - by intros out db' [= <- <-].
Qed.

(** C10: for every valid request, that is every request the handler
    answers with a record, the record of the response has no ["_id"] and
    is, field for field, the document the request appended to the
    collection; a GET then returns it, equal to the response, after the
    records stored before. *)
Theorem response_is_persisted (req : Req.t) (db db' : Db) (out : Doc) :
  incoming req db = (Ok out, db') →
  ∃ doc,
    simple_rest_table db' = simple_rest_table db ++ [doc] ∧
    _id out = None ∧
    is_Some (_id doc) ∧
    originalId doc = originalId out ∧
    duplicatePositions doc = duplicatePositions out ∧
    whiteSpacesRemoved doc = whiteSpacesRemoved out ∧
    onlyBoolean doc = onlyBoolean out ∧
    listOfIntegers doc = listOfIntegers out ∧
    (stored db →
     ∃ db'', outgoing db' =
               (Ok ((set_id None <$> simple_rest_table db) ++ [out]), db'')).
Proof.
  pose proof (incoming_stored req db) as Hst.
  destruct (incoming_cases req db)
    as [[_ Hi]|[(_ & e & _ & _ & Hi)|(_ & _ & Hi)]];
    rewrite Hi in *; [done..|].
  intros [= <- <-]. simpl in Hst.
  eexists. split_and!; try done.
  intros Hdb. eexists. rewrite outgoing_eq by auto.
  simpl. by rewrite fmap_app.
Qed.

Lemma response_is_persisted_witness :
  ∃ doc,
    simple_rest_table (mkDb [set_id (Some 0%nat) sample_out] 1) =
      simple_rest_table db0 ++ [doc] ∧
    _id sample_out = None ∧
    is_Some (_id doc) ∧
    originalId doc = originalId sample_out ∧
    duplicatePositions doc = duplicatePositions sample_out ∧
    whiteSpacesRemoved doc = whiteSpacesRemoved sample_out ∧
    onlyBoolean doc = onlyBoolean sample_out ∧
    listOfIntegers doc = listOfIntegers sample_out ∧
    (stored db0 →
     ∃ db'', outgoing (mkDb [set_id (Some 0%nat) sample_out] 1) =
               (Ok ((set_id None <$> simple_rest_table db0) ++ [sample_out]), db'')).
Proof.
  apply (response_is_persisted sample db0 (mkDb [set_id (Some 0%nat) sample_out] 1)
           sample_out).
  vm_compute. reflexivity.
Defined.

(** * Further properties of whitespace removal *)

Lemma filter_all_iff {A} (P : A → Prop) `{!∀ x, Decision (P x)} (l : list A) :
  filter P l = l ↔ Forall P l.
Proof.
  induction l as [|a l IH]; [done|].
  rewrite filter_cons, Forall_cons. destruct (decide (P a)) as [Ha|Ha].
  - rewrite <- IH. split; [by intros [= ->]|by intros [_ ->]].
  - split; [|tauto]. intros Hl.
    pose proof (length_filter P l) as Hlen. rewrite Hl in Hlen. simpl in Hlen. lia.
Qed.

Lemma filter_none_iff {A} (P : A → Prop) `{!∀ x, Decision (P x)} (l : list A) :
  filter P l = [] ↔ Forall (λ x, ¬ P x) l.
Proof.
  induction l as [|a l IH]; [done|].
  rewrite filter_cons, Forall_cons. destruct (decide (P a)) as [Ha|Ha].
  - split; [done|tauto].
  - rewrite IH. tauto.
Qed.

(** Whitespace removal of a concatenation is the concatenation of the
    whitespace removals. *)
Theorem remove_whitespace_app (s t : str) :
  remove_whitespace (s ++ t) = remove_whitespace s ++ remove_whitespace t.
Proof. rewrite !remove_whitespace_filter. apply filter_app. Qed.

(** The result of whitespace removal holds no character of
    [string.whitespace]; the strings it leaves unchanged are exactly those
    without such a character; and the strings it empties are exactly those
    made of such characters only. *)
Theorem remove_whitespace_fixpoints (s : str) :
  Forall (λ c, c ∉ whitespace) (remove_whitespace s) ∧
  (remove_whitespace s = s ↔ Forall (λ c, c ∉ whitespace) s) ∧
  (remove_whitespace s = [] ↔ Forall (λ c, c ∈ whitespace) s).
Proof.
  assert (Hnot : ∀ l : str, Forall (λ c, c ∉ whitespace) l ↔
                            Forall (λ c, ¬ spec_whitespace c) l).
  { intros l. apply Forall_proper; [|done]. intros c. by rewrite whitespace_spec. }
  rewrite remove_whitespace_filter. split_and!.
  - apply Hnot, Forall_forall. by intros c [Hc _]%list_elem_of_filter.
  - by rewrite Hnot, filter_all_iff.
  - rewrite filter_none_iff. apply Forall_proper; [|done].
    intros c. rewrite whitespace_spec.
    destruct (decide (spec_whitespace c)); tauto.
Qed.

(** Only the six characters of [string.whitespace] are removed: a string
    whose characters all lie above the space (so also one made of other
    Unicode spaces, such as U+00A0 or U+2003) comes back unchanged. *)
Theorem remove_whitespace_keeps_above_space (s : str) :
  Forall (λ c, 32 < c) s → remove_whitespace s = s.
Proof.
  intros Hs. rewrite remove_whitespace_filter. apply filter_all_iff.
  eapply Forall_impl; [exact Hs|]. unfold spec_whitespace. intros c Hc. simpl in Hc. lia.
Qed.

Lemma remove_whitespace_keeps_above_space_witness :
  remove_whitespace [0xa0; 0x2003; 0x3000] = [0xa0; 0x2003; 0x3000].
Proof.
  apply (remove_whitespace_keeps_above_space [0xa0; 0x2003; 0x3000]).
  repeat constructor.
Defined.

(** * Further properties of the duplicate scan *)

Lemma occurrences_app (c : N) (s t : str) :
  occurrences c (s ++ t) =
  occurrences c s ++ ((λ i, length s + i)%nat <$> occurrences c t).
Proof.
  induction s as [|a s IH].
  - rewrite occurrences_nil, !app_nil_l. symmetry. apply list_fmap_id.
  - rewrite <- app_comm_cons, !occurrences_cons, IH, fmap_app, <- app_assoc.
    f_equal. f_equal. rewrite <- list_fmap_compose. done.
Qed.

Lemma occurrences_elem_of (c : N) (s : str) : c ∈ s → occurrences c s ≠ [].
Proof.
  intros [i Hi]%list_elem_of_lookup_1. apply elem_of_occurrences in Hi.
  intros Hnil. rewrite Hnil in Hi. by apply elem_of_nil in Hi.
Qed.

Lemma length_occurrences (c : N) (s : str) :
  length (occurrences c s) = length (filter (λ d, d = c) s).
Proof.
  induction s as [|a s IH]; [done|].
  rewrite occurrences_cons, filter_cons, length_app, length_fmap, IH.
  by destruct (decide (a = c)).
Qed.

Lemma duplicates_default (s : str) (c : N) :
  default [] (duplicates s !! c) = repeat_occurrences c s.
Proof. rewrite duplicates_lookup. by destruct (repeat_occurrences c s). Qed.

Lemma occurrences_le1_NoDup (s : str) :
  (∀ c, (length (occurrences c s) ≤ 1)%nat) → NoDup s.
Proof.
  induction s as [|a s IH]; intros Hs; [constructor|].
  constructor.
  - intros Ha%occurrences_elem_of. specialize (Hs a).
    rewrite occurrences_cons, decide_True, length_app, length_fmap in Hs by done.
    destruct (occurrences a s); [done|]. simpl in Hs. lia.
  - apply IH. intros c. specialize (Hs c).
    rewrite occurrences_cons, length_app, length_fmap in Hs. lia.
Qed.

(** The dict of the scan is empty exactly when no character of the string
    occurs twice. *)
Theorem duplicates_empty_iff (s : str) : duplicates s = ∅ ↔ NoDup s.
Proof.
  split.
  - intros Hempty. apply occurrences_le1_NoDup. intros c.
    assert (Hc : duplicates s !! c = None) by (by rewrite Hempty).
    rewrite duplicates_lookup in Hc. unfold repeat_occurrences in Hc.
    destruct (occurrences c s) as [|i [|j l]]; simpl in *; [lia..|done].
  - intros Hs. apply map_eq. intros c. rewrite lookup_empty, duplicates_lookup.
    pose proof (occurrences_NoDup c s Hs) as Hc. unfold repeat_occurrences.
    destruct (occurrences c s) as [|i [|j l]]; simpl in *; [done..|lia].
Qed.

(** The scan of a concatenation: the list of [c] for [s ++ t] is its list
    for [s], followed by positions in [t] moved up by the length of [s]:
    every occurrence of [c] in [t] when [c] occurs in [s], and the list of
    [c] for [t] alone otherwise.  (A missing key reads as the empty list.) *)
Theorem duplicates_app (s t : str) (c : N) :
  default [] (duplicates (s ++ t) !! c) =
  default [] (duplicates s !! c) ++
  ((λ i, length s + i)%nat <$>
     (if decide (c ∈ s) then occurrences c t else default [] (duplicates t !! c))).
Proof.
  rewrite !duplicates_default. unfold repeat_occurrences.
  rewrite occurrences_app. destruct (decide (c ∈ s)) as [Hc|Hc].
  - apply occurrences_elem_of in Hc. by destruct (occurrences c s).
  - rewrite occurrences_not_elem_of by done. simpl. by rewrite fmap_tail.
Qed.

(** The number of positions listed for a character is the number of its
    occurrences in the string, less one (none when it does not occur). *)
Theorem duplicates_count (s : str) (c : N) :
  length (default [] (duplicates s !! c)) =
  (length (filter (λ d, d = c) s) - 1)%nat.
Proof.
  rewrite duplicates_default, <- length_occurrences. unfold repeat_occurrences.
  destruct (occurrences c s); simpl; lia.
Qed.

Lemma total_positions_insert_fresh (d : gmap N (list nat)) (c : N) (l : list nat) :
  d !! c = None →
  total_positions (<[c := l]> d) = (length l + total_positions d)%nat.
Proof.
  intros Hc. unfold total_positions.
  rewrite map_fold_insert_L; [done| |done]. intros. lia.
Qed.

Lemma total_positions_append (d : gmap N (list nat)) (c : N) (x : nat) :
  total_positions (<[c := default [] (d !! c) ++ [x]]> d) = S (total_positions d).
Proof.
  destruct (d !! c) as [l|] eqn:Hc; simpl.
  - rewrite <- insert_delete_eq, total_positions_insert_fresh
      by apply lookup_delete_eq.
    unfold total_positions at 2.
    rewrite (map_fold_delete_L _ _ c l d); [|intros; lia|done].
    fold (total_positions (delete c d)). rewrite length_app. simpl. lia.
  - by rewrite total_positions_insert_fresh.
Qed.

(** The loop invariant on sizes: each index adds one, either to the
    positions listed or to the characters seen. *)
Lemma scan_total (s : str) : ∀ (x : nat) (d : gmap N (list nat)) (u : gset N),
  (total_positions (for_enumerate scan_body x s (d, u)).1 +
   size (for_enumerate scan_body x s (d, u)).2)%nat =
  (total_positions d + size u + length s)%nat.
Proof.
  induction s as [|a s IH]; intros x d u; simpl; [lia|].
  destruct (decide (a ∈ u)) as [Ha|Ha]; rewrite IH.
  - rewrite total_positions_append. lia.
  - rewrite size_union, size_singleton; [lia|].
    intros b Hb ->%elem_of_singleton. done.
Qed.

Lemma scan_used (s : str) : ∀ (x : nat) (d : gmap N (list nat)) (u : gset N),
  (for_enumerate scan_body x s (d, u)).2 = u ∪ list_to_set s.
Proof.
  induction s as [|a s IH]; intros x d u; simpl.
  - by rewrite union_empty_r_L.
  - destruct (decide (a ∈ u)) as [Ha|Ha]; rewrite IH.
    + rewrite (assoc_L (∪)). f_equal. apply set_eq. intros b.
      rewrite elem_of_union, elem_of_singleton. split; [tauto|].
      intros [?| ->]; done.
    + by rewrite (assoc_L (∪)).
Qed.

(** Every index of the string is accounted for once: the positions listed
    over all keys and the distinct characters of the string add up to its
    length. *)
Theorem duplicates_total (s : str) :
  (total_positions (duplicates s) + size (list_to_set s : gset N))%nat = length s.
Proof.
  pose proof (scan_total s 0 ∅ ∅) as Htotal.
  rewrite scan_used, union_empty_l_L in Htotal. unfold duplicates.
  rewrite Htotal. unfold total_positions. rewrite map_fold_empty, size_empty. lia.
Qed.

(** * Further properties of the handlers *)

Lemma for_each_del_id_KeyError (r : list Doc) (db : Db) :
  ¬ Forall (λ d, is_Some (_id d)) r →
  for_each del_id r db = (Raise KeyError, db).
Proof.
  induction r as [|d r IH]; intros Hr; [by destruct Hr|].
  simpl. unfold mbind, M_bind. destruct (_id d) as [o|] eqn:Hd.
  - rewrite del_id_Some by (by rewrite Hd). rewrite IH; [done|].
    intros Hall. apply Hr. constructor; [by rewrite Hd|done].
  - unfold del_id. by rewrite Hd.
Qed.

Lemma outgoing_cases (db : Db) :
  (stored db ∧
   outgoing db = (Ok (set_id None <$> simple_rest_table db), mkDb [] (next_oid db))) ∨
  (¬ stored db ∧ outgoing db = (Raise KeyError, db)).
Proof.
  destruct (decide (stored db)) as [Hdb|Hdb].
  - left. split; [done|]. by apply outgoing_eq.
  - right. split; [done|]. unfold outgoing, mbind, M_bind, find.
    by rewrite for_each_del_id_KeyError.
Qed.

(** A GET is all or nothing: when every stored document carries its
    ["_id"] it returns all of them, without the ["_id"], and empties the
    collection; otherwise [del i["_id"]] raises [KeyError] and the
    collection is left as it was.  No document is removed without having
    been returned. *)
Theorem outgoing_all_or_nothing (db : Db) :
  (stored db ∧
   outgoing db = (Ok (set_id None <$> simple_rest_table db), mkDb [] (next_oid db))) ∨
  (¬ stored db ∧ outgoing db = (Raise KeyError, db)).
Proof. apply outgoing_cases. Qed.

(** Whatever a GET returns has no ["_id"] left, has one record per stored
    document, and the collection is empty afterwards. *)
Theorem outgoing_strips_ids (db db' : Db) (r : list Doc) :
  outgoing db = (Ok r, db') →
  Forall (λ d, _id d = None) r ∧
  length r = length (simple_rest_table db) ∧
  simple_rest_table db' = [].
Proof.
  destruct (outgoing_cases db) as [[_ ->]|[_ ->]]; [|done].
  intros [= <- <-]. split_and!; [|by rewrite length_fmap|done].
  apply Forall_fmap, Forall_forall. done.
Qed.

Lemma outgoing_strips_ids_witness :
  Forall (λ d, _id d = None)
         (set_id None <$> simple_rest_table (incoming sample db0).2) ∧
  length (set_id None <$> simple_rest_table (incoming sample db0).2) =
    length (simple_rest_table (incoming sample db0).2) ∧
  simple_rest_table (mkDb [] 1) = [].
Proof.
  apply (outgoing_strips_ids (incoming sample db0).2 (mkDb [] 1)
           (set_id None <$> simple_rest_table (incoming sample db0).2)).
  vm_compute. reflexivity.
Defined.

Lemma handle_step (q : request) (db : Db) :
  stored db →
  ∃ r db1,
    handle q db = (r, db1) ∧ stored db1 ∧
    match q with
    | POST_incoming req =>
        (∃ x, r = Posted x) ∧
        (r = Posted (Raise AssertionError) ↔ isdecimal (Req.id req) = false) ∧
        r ≠ Posted (Raise KeyError)
    | _ => ∃ l, r = Drained (Ok l)
    end ∧
    delivered [r] ++ (set_id None <$> simple_rest_table db1) =
      (set_id None <$> simple_rest_table db) ++ accepted [r].
Proof.
  intros Hdb. destruct q as [| |req]; simpl.
  - rewrite outgoing_eq by done. eexists _, _.
    split_and!; [done|constructor|by eexists|].
    unfold delivered, accepted. simpl. by rewrite !app_nil_r.
  - rewrite outgoing_eq by done. eexists _, _.
    split_and!; [done|constructor|by eexists|].
    unfold delivered, accepted. simpl. by rewrite !app_nil_r.
  - pose proof (incoming_stored req db Hdb) as Hst.
    destruct (incoming_cases req db)
      as [[Hid Hi]|[(Hid & e & [-> | ->] & _ & Hi)|(Hid & _ & Hi)]];
      rewrite Hi in *; rewrite Hid; eexists _, _;
      (split_and!; [done|done|by eexists|by split|done|]);
      unfold delivered, accepted; simpl; rewrite ?app_nil_r; [done..|].
    by rewrite fmap_app.
Qed.

Lemma delivered_cons (r : reply) (rs : list reply) :
  delivered (r :: rs) = delivered [r] ++ delivered rs.
Proof.
  unfold delivered. destruct r as [[l|e]|[d|e]]; simpl; by rewrite ?app_nil_r.
Qed.

Lemma accepted_cons (r : reply) (rs : list reply) :
  accepted (r :: rs) = accepted [r] ++ accepted rs.
Proof. unfold accepted. by destruct r as [[l|e]|[d|e]]. Qed.

Lemma serve_spec (qs : list request) : ∀ db,
  stored db →
  stored (serve qs db).2 ∧
  Forall2 (λ q r,
      match q with
      | POST_incoming req =>
          (∃ x, r = Posted x) ∧
          (r = Posted (Raise AssertionError) ↔ isdecimal (Req.id req) = false) ∧
          r ≠ Posted (Raise KeyError)
      | _ => ∃ l, r = Drained (Ok l)
      end) qs (serve qs db).1 ∧
  delivered (serve qs db).1 ++ (set_id None <$> simple_rest_table (serve qs db).2) =
    (set_id None <$> simple_rest_table db) ++ accepted (serve qs db).1.
Proof.
  induction qs as [|q qs IH]; intros db Hdb.
  - simpl. split_and!; [done|constructor|]. unfold delivered, accepted. simpl.
    by rewrite app_nil_r.
  - destruct (handle_step q db Hdb) as (r & db1 & Hh & Hdb1 & Hr & Hcons1).
    destruct (IH db1 Hdb1) as (Hst & Hall & Hcons).
    simpl. rewrite Hh. destruct (serve qs db1) as [rs db2] eqn:Hs.
    cbn [fst snd] in *. split_and!; [done|by constructor|].
    rewrite delivered_cons, accepted_cons, <- app_assoc, Hcons.
    by rewrite !app_assoc, Hcons1.
Qed.

(** On a collection whose documents all carry their ["_id"] (the empty one
    to begin with), whatever the sequence of requests: every GET succeeds;
    a POST fails with [AssertionError] exactly when its [id] does not pass
    [isdecimal]; no request ends in [KeyError]; and the documents left all
    carry their ["_id"]. *)
Theorem serve_only_assertion_errors (qs : list request) (db : Db) :
  stored db →
  Forall2 (λ q r,
      match q with
      | POST_incoming req =>
          (∃ x, r = Posted x) ∧
          (r = Posted (Raise AssertionError) ↔ isdecimal (Req.id req) = false) ∧
          r ≠ Posted (Raise KeyError)
      | _ => ∃ l, r = Drained (Ok l)
      end) qs (serve qs db).1 ∧
  stored (serve qs db).2.
Proof. intros Hdb. destruct (serve_spec qs db Hdb) as (? & ? & _). done. Qed.

Lemma serve_only_assertion_errors_witness :
  Forall2 (λ q r,
      match q with
      | POST_incoming req =>
          (∃ x, r = Posted x) ∧
          (r = Posted (Raise AssertionError) ↔ isdecimal (Req.id req) = false) ∧
          r ≠ Posted (Raise KeyError)
      | _ => ∃ l, r = Drained (Ok l)
      end)
    [POST_incoming sample; GET_root; POST_incoming (with_id (py "65a"));
     POST_incoming sample; GET_outgoing]
    (serve [POST_incoming sample; GET_root; POST_incoming (with_id (py "65a"));
            POST_incoming sample; GET_outgoing] db0).1 ∧
  stored (serve [POST_incoming sample; GET_root; POST_incoming (with_id (py "65a"));
                 POST_incoming sample; GET_outgoing] db0).2.
Proof.
  apply (serve_only_assertion_errors
           [POST_incoming sample; GET_root; POST_incoming (with_id (py "65a"));
            POST_incoming sample; GET_outgoing] db0).
  constructor.
Defined.



(** The check of [id] on ASCII text: an [id] holding any ASCII character
    other than '0'..'9' (a sign, a point, a letter, a space) is refused with
    [AssertionError] and nothing is stored; and an [id] of ASCII characters
    only passes the check (the handler does not raise [AssertionError])
    exactly when it is not empty and all its characters are among
    '0'..'9'. *)
Theorem ascii_id_validation (req : Req.t) (db : Db) :
  (∀ c, c ∈ Req.id req → c < 128 → ¬ (48 ≤ c ≤ 57) →
        incoming req db = (Raise AssertionError, db)) ∧
  (Forall (λ c, c < 128) (Req.id req) →
   ((incoming req db).1 ≠ Raise AssertionError ↔
    Req.id req ≠ [] ∧ Forall (λ c, 48 ≤ c ≤ 57) (Req.id req))).
Proof.
  split.
  - intros c Hc Hascii Hdigit. rewrite incoming_eq.
    destruct (isdecimal (Req.id req)) eqn:Hid; [|done].
    apply isdecimal_Forall in Hid as [_ Hall].
    rewrite Forall_forall in Hall. apply Hall in Hc.
    apply decimal_char_ascii in Hc; done.
  - intros Hascii.
    assert (Hiff : isdecimal (Req.id req) = true ↔
                   Req.id req ≠ [] ∧ Forall (λ c, 48 ≤ c ≤ 57) (Req.id req)).
    { rewrite isdecimal_Forall, !Forall_forall. rewrite Forall_forall in Hascii.
      split; intros [Hne Hall]; (split; [done|]); intros c Hc;
        apply decimal_char_ascii; auto. }
    rewrite <- Hiff.
    destruct (incoming_cases req db)
      as [[Hid ->]|[(Hid & e & [-> | ->] & _ & ->)|(Hid & _ & ->)]];
      rewrite Hid; simpl; split; done.
Qed.




(** The two refusals on the smallest requests that show them. *)
Example incoming_nul_key :
  incoming (Req.mk (py "1") [0; 0] [] false []) db0 = (Raise InvalidDocument, db0).
Proof. by vm_compute. Qed.

Example incoming_big_integer :
  incoming (Req.mk (py "1") [] [] false [2 ^ 63]%Z) db0 = (Raise OverflowError, db0) ∧
  (∃ out db', incoming (Req.mk (py "1") [] [] false [2 ^ 63 - 1; - 2 ^ 63]%Z) db0
              = (Ok out, db')).
Proof. split; [by vm_compute|]. eexists _, _. by vm_compute. Qed.

(** The test of the [__main__] block cannot pass: on a collection whose
    documents carry their ["_id"], the GET of the test answers 200, so the
    first assertion holds, and its body is a JSON array, so the comparison
    with the object of the second assertion fails with [AssertionError];
    by then the GET has emptied the collection.  On any other collection
    the [KeyError] of the handler is raised. *)
Theorem test_read_main_never_passes (db : Db) :
  (stored db →
   client_get_root db =
     (Ok (Response.mk 200 (JList (encode <$> (set_id None <$> simple_rest_table db)))),
      mkDb [] (next_oid db)) ∧
   test_read_main db = (Raise AssertionError, mkDb [] (next_oid db))) ∧
  (¬ stored db → test_read_main db = (Raise KeyError, db)).
Proof.
  unfold test_read_main, client_get_root, mbind, M_bind.
  destruct (outgoing_cases db) as [[Hdb ->]|[Hdb ->]]; by split.
Qed.
